(** * The experiment runner of bgn/cmd/runScript.py

    [runScript.py] holds a list of parameter tuples and, for each of them,
    builds a command line, runs it as a child process with
    [subprocess.run(cmd, capture_output=True, text=True)] and prints the
    captured standard output.

    The script is embedded as a program in a small state-and-exception monad.
    The state is the "world" the script acts on: the host that runs the child
    processes, the text written so far to the script's own standard output, and
    the chronological trace of what happened.  The host is a parameter of the
    development: a state machine that answers each launch either with a refusal
    to start the program or with a child that ran to its exit, leaving a status
    and two captured streams, each of which decodes as text or does not. *)

From Stdlib Require Import ZArith NArith Nnat Znat List String Ascii.
From Stdlib Require Import DecimalString DecimalFacts DecimalPos DecimalZ Lia.
Import ListNotations.

Local Open Scope string_scope.
Local Open Scope list_scope.

(** ** Python values: exceptions, results, [str] and list indexing *)

(** The exceptions the script can meet: indexing a tuple past its end
    ([IndexError]); [str] of an integer with too many digits ([ValueError]);
    the operating system refusing to start the child ([FileNotFoundError],
    [PermissionError], ... are all [OSError]s); and captured output that does
    not decode as text ([UnicodeDecodeError]). *)
Inductive exn : Type :=
| IndexError
| ValueError
| OSError
| UnicodeDecodeError.

Inductive result (A : Type) : Type :=
| Return (a : A)
| Raise (e : exn).
Arguments Return {A} a.
Arguments Raise {A} e.

Class Monad (m : Type -> Type) : Type := {
  ret : forall {A}, A -> m A;
  bind : forall {A B}, m A -> (A -> m B) -> m B
}.

Declare Scope py_scope.
Delimit Scope py_scope with py.
Notation "x <- c1 ;; c2" := (bind c1 (fun x => c2))
  (at level 61, c1 at next level, right associativity) : py_scope.
Notation "c1 ;; c2" := (bind c1 (fun _ => c2))
  (at level 61, right associativity) : py_scope.
Local Open Scope py_scope.

#[export] Instance result_monad : Monad result := {
  ret := fun A a => Return a;
  bind := fun A B c k =>
    match c with
    | Return a => k a
    | Raise e => Raise e
    end
}.

(** The line feed that [print] appends. *)
Definition newline : string := String (ascii_of_nat 10) EmptyString.

(** The decimal numeral of an integer, with a leading minus sign for a
    negative number: what [str(n)] returns when it returns. *)
Definition str (n : Z) : string := NilZero.string_of_int (Z.to_int n).

(** The number of decimal digits of [n], sign not counted. *)
Definition digits (n : Z) : nat := String.length (str (Z.abs n)).

(** The interpreter's limit on integer-to-string conversion, at its default;
    the script does not change it. *)
Definition int_max_str_digits : nat := 4300.

(** The call [str(n)]: it raises [ValueError] for an integer of more digits
    than the limit. *)
Definition py_str (n : Z) : result string :=
  if (int_max_str_digits <? digits n)%nat then Raise ValueError
  else Return (str n).

(** [l[i]] for a constant index [i >= 0]. *)
Definition getitem (l : list Z) (i : nat) : result Z :=
  match nth_error l i with
  | Some v => Return v
  | None => Raise IndexError
  end.

(** ** The parameter grid (lines 11-17) *)

Definition args : list (list Z) :=
  [ [5; 512; 10000000000; 5; 10000; 100000; 76];
    [5; 512; 10000000000; 10; 10000; 100000; 76];
    [5; 512; 10000000000; 15; 10000; 100000; 76];
    [5; 512; 10000000000; 20; 10000; 100000; 76];
    [5; 512; 10000000000; 40; 10000; 100000; 76] ]%Z.

(** ** The command line (lines 22-26)

    The list display is evaluated left to right: each [str(arg_set[i])] indexes
    the tuple and converts the field before the next element is looked at, so
    the first index that is missing or the first field that is too long is the
    one that raises. *)
Definition cmd (arg_set : list Z) : result (list string) :=
  a0 <- getitem arg_set 0 ;; s0 <- py_str a0 ;;
  a1 <- getitem arg_set 1 ;; s1 <- py_str a1 ;;
  a2 <- getitem arg_set 2 ;; s2 <- py_str a2 ;;
  a3 <- getitem arg_set 3 ;; s3 <- py_str a3 ;;
  a4 <- getitem arg_set 4 ;; s4 <- py_str a4 ;;
  a5 <- getitem arg_set 5 ;; s5 <- py_str a5 ;;
  a6 <- getitem arg_set 6 ;; s6 <- py_str a6 ;;
  ret [ "go"; "run"; "test1.go"; s0; s1; s2; s3; s4; s5; s6 ].

(** ** Child processes *)

(** A captured stream, read through a pipe opened with [text=True]: bytes that
    decode to a text, or bytes that do not decode. *)
Inductive stream : Type :=
| Text (s : string)
| Undecodable.

(** What a child process leaves behind when it terminates: its exit status and
    its two captured streams. *)
Record Terminated : Type := {
  status : Z;
  out_stream : stream;
  err_stream : stream
}.

(** The same once both streams have decoded. *)
Record ChildExit : Type := {
  exit_code : Z;
  out : string;
  err : string
}.

Definition decoded (r : Terminated) : option ChildExit :=
  match out_stream r, err_stream r with
  | Text o, Text e => Some {| exit_code := status r; out := o; err := e |}
  | _, _ => None
  end.

(** A child that exited as [x], both of its streams being text. *)
Definition text_exit (x : ChildExit) : Terminated :=
  {| status := exit_code x; out_stream := Text (out x); err_stream := Text (err x) |}.

(** The object [subprocess.run] returns. *)
Record CompletedProcess : Type := {
  cp_args : list string;
  returncode : Z;
  stdout : string;
  stderr : string
}.

(** The [CompletedProcess] for command [c] whose child exited as [x]. *)
Definition completed (c : list string) (x : ChildExit) : CompletedProcess :=
  {| cp_args := c; returncode := exit_code x; stdout := out x; stderr := err x |}.

Inductive event : Type :=
| Launch (c : list string)           (* [subprocess.run] asks for a child *)
| LaunchError                        (* the host could not start it *)
| DecodeError                        (* it ran and exited; its output does not decode *)
| Exited (cp : CompletedProcess)     (* it ran and exited; [subprocess.run] returns [cp] *)
| Printed (s : string).              (* [print(s)] *)

Section Host.

(** The host: [spawn c h] is asked, in host state [h], to run command [c] to
    completion.  [Some r] is a child that ran and terminated as [r]; [None] is
    a program that could not be started. *)
Context {os : Type}.
Variable spawn : list string -> os -> option Terminated * os.

Record world : Type := {
  host : os;
  sys_stdout : string;
  trace : list event
}.

Definition prog (A : Type) : Type := world -> result A * world.

#[export] Instance prog_monad : Monad prog := {
  ret := fun A a w => (Return a, w);
  bind := fun A B c k w =>
    match c w with
    | (Return a, w') => k a w'
    | (Raise e, w') => (Raise e, w')
    end
}.

Definition lift {A : Type} (r : result A) : prog A := fun w => (r, w).

(** [subprocess.run(c, capture_output=True, text=True)]: the child is
    started, the call blocks until it has terminated, and its status and
    both captured streams, decoded, come back in a [CompletedProcess].  Both
    streams go to pipes, so nothing reaches the script's own standard output.
    A program that cannot be started raises an [OSError]; a stream that does
    not decode raises [UnicodeDecodeError] once the child has terminated.  No
    [check=True] is passed, so the return code raises nothing. *)
Definition subprocess_run (c : list string) : prog CompletedProcess :=
  fun w =>
    match spawn c (host w) with
    | (Some r, h) =>
        match decoded r with
        | Some x =>
            let cp := completed c x in
            (Return cp,
             {| host := h; sys_stdout := sys_stdout w;
                trace := trace w ++ [Launch c; Exited cp] |})
        | None =>
            (Raise UnicodeDecodeError,
             {| host := h; sys_stdout := sys_stdout w;
                trace := trace w ++ [Launch c; DecodeError] |})
        end
    | (None, h) =>
        (Raise OSError,
         {| host := h; sys_stdout := sys_stdout w;
            trace := trace w ++ [Launch c; LaunchError] |})
    end.

(** [print(s)]: the text, then the default [end], a newline. *)
Definition print (s : string) : prog unit :=
  fun w =>
    (Return tt,
     {| host := host w; sys_stdout := sys_stdout w ++ s ++ newline;
        trace := trace w ++ [Printed s] |}).

(** ** The loop (lines 20-32) *)

Definition body (arg_set : list Z) : prog unit :=
  c <- lift (cmd arg_set) ;;
  result <- subprocess_run c ;;
  print (stdout result).

(** [for arg_set in grid: body]; an exception leaves the loop. *)
Fixpoint sweep (grid : list (list Z)) : prog unit :=
  match grid with
  | [] => ret tt
  | arg_set :: rest => body arg_set ;; sweep rest
  end.

Definition runScript : prog unit := sweep args.

(** What [subprocess.run] returns for the commands [cs] asked one after the
    other from host state [h], up to the first call that raises. *)
Fixpoint served (cs : list (list string)) (h : os) : list CompletedProcess :=
  match cs with
  | [] => []
  | c :: cs' =>
      match spawn c h with
      | (Some r, h') =>
          match decoded r with
          | Some x => completed c x :: served cs' h'
          | None => []
          end
      | (None, _) => []
      end
  end.

(** Running a script from a fresh interpreter on a host in state [h]. *)
Definition python (p : prog unit) (h : os) : result unit * world :=
  p {| host := h; sys_stdout := ""; trace := [] |}.

End Host.

Arguments world : clear implicits.

(** The interpreter's exit status: 0 when the script runs to its end, 1 when an
    exception reaches the top level. *)
Definition exit_status {A : Type} (r : result A) : Z :=
  match r with
  | Return _ => 0%Z
  | Raise _ => 1%Z
  end.

(** ** Reading a trace *)

Definition launches (tr : list event) : list (list string) :=
  flat_map (fun e => match e with Launch c => [c] | _ => [] end) tr.

(** The calls of [subprocess.run] that returned, with what they returned. *)
Definition exits (tr : list event) : list CompletedProcess :=
  flat_map (fun e => match e with Exited cp => [cp] | _ => [] end) tr.

Definition prints (tr : list event) : list string :=
  flat_map (fun e => match e with Printed s => [s] | _ => [] end) tr.

(** The events of one complete iteration whose child came back as [cp]. *)
Definition iteration (cp : CompletedProcess) : list event :=
  [Launch (cp_args cp); Exited cp; Printed (stdout cp)].

(** What [print] writes for a list of texts: each text and its newline. *)
Fixpoint lines (l : list string) : string :=
  match l with
  | [] => ""
  | s :: rest => s ++ newline ++ lines rest
  end.


(** The command of tuple [t] is [c]. *)
Definition command_of (t : list Z) (c : list string) : Prop :=
  cmd t = Return c.

(** [int(s)], the inverse of [str]. *)
Definition int (s : string) : option Z :=
  option_map Z.of_int (NilZero.int_of_string s).

(** A tuple the loop body can index: fields 0 to 6 exist. *)
Definition indexable (t : list Z) : Prop := (7 <= List.length t)%nat.

(** A field [str] accepts. *)
Definition fits (v : Z) : Prop := (digits v <= int_max_str_digits)%nat.

(** A tuple whose command can be built: seven fields exist, and each of the
    first seven has no more digits than [str] accepts. *)
Definition passable (t : list Z) : Prop :=
  indexable t /\ Forall fits (firstn 7 t).

(** The strings of the first [k] fields of a tuple, computed as the list
    display does, field by field from the left. *)
Fixpoint trailing (k : nat) (t : list Z) : result (list string) :=
  match k with
  | O => Return []
  | S k' =>
      match t with
      | [] => Raise IndexError
      | a :: t' => s <- py_str a ;; l <- trailing k' t' ;; ret (s :: l)
      end
  end.

(** A host on which the program always starts and runs to an exit, whatever
    the exit status, with output that decodes as text, whatever the text. *)
Definition program_runs {os : Type}
    (spawn : list string -> os -> option Terminated * os) : Prop :=
  forall c h, exists x h', spawn c h = (Some (text_exit x), h').

(** The fixed head of every command: [go run] and the simulator's entry
    point. *)
Definition go_run : list string := ["go"; "run"; "test1.go"].

(** How a trace can end when [subprocess.run] cuts the sweep short. *)
Definition cut_short (tail : list event) : Prop :=
  tail = [] \/
  exists c, tail = [Launch c; LaunchError] \/ tail = [Launch c; DecodeError].

(** How the loop over [grid] ends after [n] complete iterations, with result
    [r] and the events [tail] after the last complete iteration: at the end of
    the grid; at a launch the host refuses; at a child whose output does not
    decode; or at a tuple whose command cannot be built. *)
Definition ended (grid : list (list Z)) (n : nat) (r : result unit)
    (tail : list event) : Prop :=
  match r with
  | Return _ => tail = [] /\ n = List.length grid
  | Raise OSError =>
      exists t c, nth_error grid n = Some t /\ command_of t c /\
                  tail = [Launch c; LaunchError]
  | Raise UnicodeDecodeError =>
      exists t c, nth_error grid n = Some t /\ command_of t c /\
                  tail = [Launch c; DecodeError]
  | Raise e =>
      tail = [] /\ exists t, nth_error grid n = Some t /\ cmd t = Raise e
  end.

(** ** Comparing two hosts *)

Section TwoHostsDefs.

Context {os1 os2 : Type}.
Variable spawn1 : list string -> os1 -> option Terminated * os1.
Variable spawn2 : list string -> os2 -> option Terminated * os2.

(** [R] relates states of the two hosts from which the same command gives, on
    both, a child whose output decodes, with the same standard output (and
    related states again), or on both a child whose output does not decode, or
    on both a refusal.  Exit codes and standard-error texts are left free. *)
Definition same_stdout (R : os1 -> os2 -> Prop) : Prop :=
  forall c a b,
    R a b ->
    match spawn1 c a, spawn2 c b with
    | (Some r1, a'), (Some r2, b') =>
        match decoded r1, decoded r2 with
        | Some x, Some y => out x = out y /\ R a' b'
        | None, None => True
        | _, _ => False
        end
    | (None, _), (None, _) => True
    | _, _ => False
    end.

(** What an observer of the script sees of a world: its standard output, the
    commands it launched and the texts it printed. *)
Definition observably_equal (w1 : world os1) (w2 : world os2) : Prop :=
  sys_stdout w1 = sys_stdout w2 /\
  launches (trace w1) = launches (trace w2) /\
  prints (trace w1) = prints (trace w2).

End TwoHostsDefs.

(** A host runs program [f] when every launch yields a child whose output
    decodes and whose standard output is [f] of the command line. *)
Definition runs_program {os : Type} (f : list string -> string)
    (spawn : list string -> os -> option Terminated * os) : Prop :=
  forall c h, exists x h', spawn c h = (Some (text_exit x), h') /\ out x = f c.

(** ** Hosts used as test doubles *)

(** What the echoing stubs write: the command line, blank-separated, and a
    newline. *)
Definition echo (c : list string) : string := String.concat " " c ++ newline.

(** A simulator stub that echoes its command line and exits with status 0. *)
Definition echo_stub (c : list string) (h : unit) : option Terminated * unit :=
  (Some (text_exit {| exit_code := 0; out := echo c; err := "" |}), h).

(** A stub that echoes its command line just the same, but exits with a
    different status at every launch (0, 1, 2, ...) and complains on its
    standard error from the second launch on. *)
Definition moody_stub (c : list string) (h : nat) : option Terminated * nat :=
  (Some (text_exit
           {| exit_code := Z.of_nat h;
              out := echo c;
              err := match h with O => "" | S _ => "panic: out of luck" end |}),
   S h).

(** A stub that writes nothing to its standard output, complains on its
    standard error and exits with status 1; the host counts the launches. *)
Definition failing_stub (c : list string) (h : nat) : option Terminated * nat :=
  (Some (text_exit {| exit_code := 1; out := ""; err := "exit status 1" |}), S h).

(** A host on which the program cannot be started ([go] is not installed). *)
Definition no_program (c : list string) (h : unit) : option Terminated * unit :=
  (None, h).

(** A stub that exits with status 0 after writing bytes that are not text to
    its standard output. *)
Definition binary_stub (c : list string) (h : unit) : option Terminated * unit :=
  (Some {| status := 0; out_stream := Undecodable; err_stream := Text "" |}, h).

(** A stub that echoes its command line and exits with status 0, like
    [echo_stub], but also writes a byte that is not text to its standard
    error. *)
Definition noisy_echo_stub (c : list string) (h : unit) : option Terminated * unit :=
  (Some {| status := 0; out_stream := Text (echo c); err_stream := Undecodable |}, h).

(** A stub that crashes: nothing on its standard output, bytes that are not
    text on its standard error, exit status 2. *)
Definition crashing_stub (c : list string) (h : unit) : option Terminated * unit :=
  (Some {| status := 2; out_stream := Text ""; err_stream := Undecodable |}, h).

(** The smallest integer with one digit too many for [str]. *)
Definition huge : Z := (10 ^ Z.of_nat int_max_str_digits)%Z.

(** * Properties *)

(** ** Strings *)

Lemma append_nil_r (s : string) : (s ++ "")%string = s.
Proof. induction s as [|a s IH]; simpl; [reflexivity | now rewrite IH]. Qed.

Lemma append_assoc (s1 s2 s3 : string) :
  ((s1 ++ s2) ++ s3)%string = (s1 ++ (s2 ++ s3))%string.
Proof. induction s1 as [|a s1 IH]; simpl; [reflexivity | now rewrite IH]. Qed.


Lemma lines_app (l1 l2 : list string) :
  lines (l1 ++ l2) = (lines l1 ++ lines l2)%string.
Proof.
  induction l1 as [|s l1 IH]; simpl; [reflexivity |].
  now rewrite IH, !append_assoc.
Qed.


(** ** [str] and its limit *)

(** [str] loses nothing: reading the numeral back gives the number. *)
Lemma int_str (n : Z) : int (str n) = Some n.
Proof.
  unfold int, str.
  rewrite NilZero.isi.
  - simpl. now rewrite DecimalZ.of_to.
  - destruct n as [|p|p]; simpl; try discriminate.
    intros [= H]. now apply DecimalPos.Unsigned.to_uint_nonnil in H.
  - destruct n as [|p|p]; simpl; try discriminate.
    intros [= H]. now apply DecimalPos.Unsigned.to_uint_nonnil in H.
Qed.

Lemma str_inj (n m : Z) : str n = str m -> n = m.
Proof.
  intros H. apply (f_equal int) in H. rewrite !int_str in H. congruence.
Qed.

Lemma py_str_fits (v : Z) : fits v -> py_str v = Return (str v).
Proof.
  unfold fits, py_str. intros H.
  destruct (Nat.ltb_spec int_max_str_digits (digits v)); [lia | reflexivity].
Qed.

Lemma py_str_long (v : Z) : ~ fits v -> py_str v = Raise ValueError.
Proof.
  unfold fits, py_str. intros H.
  destruct (Nat.ltb_spec int_max_str_digits (digits v)); [reflexivity | lia].
Qed.

Lemma fits_dec (v : Z) : {fits v} + {~ fits v}.
Proof. apply le_dec. Qed.

(** A numeral of [k] digits denotes a number below [10 ^ k]. *)
Lemma of_lu_bound (d : Decimal.uint) :
  (Unsigned.of_lu d < 10 ^ N.of_nat (Decimal.nb_digits d))%N.
Proof.
  induction d; cbn [Unsigned.of_lu Decimal.nb_digits];
    rewrite ?Nat2N.inj_succ, ?N.pow_succ_r'; simpl N.of_nat; lia.
Qed.

Lemma length_string_of_uint (d : Decimal.uint) :
  String.length (NilEmpty.string_of_uint d) = Decimal.nb_digits d.
Proof. induction d; simpl; congruence. Qed.

Lemma digits_pos (p : positive) :
  digits (Z.pos p) = Decimal.nb_digits (Pos.to_uint p).
Proof.
  unfold digits, str. cbn [Z.abs Z.to_int NilZero.string_of_int].
  pose proof (Unsigned.to_uint_nonnil p) as Hnil.
  rewrite <- length_string_of_uint.
  destruct (Pos.to_uint p); [contradiction | reflexivity ..].
Qed.

Lemma pos_below_digits (p : positive) :
  (Z.pos p < 10 ^ Z.of_nat (digits (Z.pos p)))%Z.
Proof.
  rewrite digits_pos.
  pose proof (of_lu_bound (Decimal.rev (Pos.to_uint p))) as H.
  rewrite <- Unsigned.of_uint_alt, Unsigned.of_to, nb_digits_rev in H.
  apply N2Z.inj_lt in H. rewrite N2Z.inj_pow, nat_N_Z in H. exact H.
Qed.

(** The limit in terms of size: an integer of absolute value [10 ^ 4300] or
    more is refused. *)
Lemma py_str_huge (n : Z) :
  (huge <= Z.abs n)%Z -> py_str n = Raise ValueError.
Proof.
  unfold huge. intros H. apply py_str_long. unfold fits. intros Hfit.
  assert (Hpos : (0 < 10 ^ Z.of_nat int_max_str_digits)%Z)
    by (apply Z.pow_pos_nonneg; lia).
  assert (Hd : digits n = digits (Z.abs n))
    by (unfold digits; now rewrite Z.abs_idemp).
  rewrite Hd in Hfit.
  destruct (Z.abs n) as [|p|p] eqn:E; [lia | | lia].
  pose proof (pos_below_digits p) as Hlt.
  assert (Hle : (10 ^ Z.of_nat (digits (Z.pos p))
                 <= 10 ^ Z.of_nat int_max_str_digits)%Z)
    by (apply Z.pow_le_mono_r; lia).
  lia.
Qed.

(** ** The command line *)

Lemma trailing_exn (k : nat) :
  forall t e, trailing k t = Raise e -> e = IndexError \/ e = ValueError.
Proof.
  induction k as [|k IH]; intros [|a t] e H; simpl in H; try discriminate H.
  - injection H as <-. now left.
  - destruct (fits_dec a) as [Ha | Ha].
    + rewrite (py_str_fits a Ha) in H.
      destruct (trailing k t) as [l | e'] eqn:Ht; [discriminate H |].
      injection H as <-. exact (IH t e' Ht).
    + rewrite (py_str_long a Ha) in H. injection H as <-. now right.
Qed.

Lemma trailing_Return (k : nat) :
  forall t l,
    trailing k t = Return l <->
    (k <= List.length t)%nat /\ Forall fits (firstn k t) /\
    l = map str (firstn k t).
Proof.
  induction k as [|k IH]; intros [|a t] l; simpl.
  - split; [intros [= <-]; repeat split; auto | intros (_ & _ & ->); reflexivity].
  - split; [intros [= <-]; repeat split; auto; lia | intros (_ & _ & ->); reflexivity].
  - split; [discriminate | intros (H & _); lia].
  - destruct (fits_dec a) as [Ha | Ha].
    + rewrite (py_str_fits a Ha).
      destruct (trailing k t) as [l' | e] eqn:Ht.
      * apply IH in Ht. destruct Ht as (Hk & Hf & ->).
        split.
        -- intros [= <-]. repeat split; [lia | now constructor].
        -- intros (_ & _ & ->). reflexivity.
      * split; [discriminate |].
        intros (Hk & Hf & ->).
        assert (Habs : trailing k t = Return (map str (firstn k t))).
        { apply IH. repeat split; [lia | now inversion Hf]. }
        congruence.
    + rewrite (py_str_long a Ha).
      split; [discriminate | intros (_ & Hf & _); inversion Hf; contradiction].
Qed.

Lemma trailing_ValueError (k : nat) :
  forall t,
    trailing k t = Raise ValueError <->
    Exists (fun v => ~ fits v) (firstn k t).
Proof.
  induction k as [|k IH]; intros [|a t]; simpl.
  - split; [discriminate | intros H; inversion H].
  - split; [discriminate | intros H; inversion H].
  - split; [discriminate | intros H; inversion H].
  - destruct (fits_dec a) as [Ha | Ha].
    + rewrite (py_str_fits a Ha).
      destruct (trailing k t) as [l' | e] eqn:Ht.
      * split; [discriminate |].
        intros H. inversion H as [? ? Hna | ? ? Hex]; [contradiction |].
        apply IH in Hex. congruence.
      * split.
        -- intros [= ->]. apply Exists_cons_tl. now apply IH.
        -- intros H. inversion H as [? ? Hna | ? ? Hex]; [contradiction |].
           apply IH in Hex. congruence.
    + rewrite (py_str_long a Ha).
      split; [intros _; now apply Exists_cons_hd | reflexivity].
Qed.

Lemma trailing_IndexError (k : nat) :
  forall t,
    trailing k t = Raise IndexError <->
    (List.length t < k)%nat /\ Forall fits t.
Proof.
  induction k as [|k IH]; intros [|a t]; simpl.
  - split; [discriminate | intros [H _]; lia].
  - split; [discriminate | intros [H _]; lia].
  - split; [intros _; split; [lia | constructor] | reflexivity].
  - destruct (fits_dec a) as [Ha | Ha].
    + rewrite (py_str_fits a Ha).
      destruct (trailing k t) as [l' | e] eqn:Ht.
      * split; [discriminate |].
        intros [Hk Hf]. inversion Hf; subst.
        assert (trailing k t = Raise IndexError) by (apply IH; split; [lia | assumption]).
        congruence.
      * split.
        -- intros [= ->]. apply IH in Ht. destruct Ht as [Hk Hf].
           split; [lia | now constructor].
        -- intros [Hk Hf]. inversion Hf; subst.
           assert (trailing k t = Raise IndexError) by (apply IH; split; [lia | assumption]).
           congruence.
    + rewrite (py_str_long a Ha).
      split; [discriminate | intros [_ Hf]; inversion Hf; contradiction].
Qed.

Lemma trailing_firstn (k : nat) :
  forall t, trailing k t = trailing k (firstn k t).
Proof.
  induction k as [|k IH]; intros [|a t]; simpl; try reflexivity.
  now rewrite <- IH.
Qed.

(** The list display of lines 22-26 is [go run test1.go] followed by the
    strings of the first seven fields. *)
Lemma cmd_trailing (t : list Z) :
  cmd t = (l <- trailing 7 t ;; ret (go_run ++ l)).
Proof.
  unfold cmd, getitem.
  do 7 (destruct t as [|? t]; [cbn; repeat (destruct (py_str _); cbn); reflexivity |]).
  cbn. repeat (destruct (py_str _); cbn; try reflexivity).
Qed.

Lemma cmd_passable (t : list Z) :
  passable t -> cmd t = Return (go_run ++ map str (firstn 7 t)).
Proof.
  intros [Hi Hf]. rewrite cmd_trailing.
  assert (H : trailing 7 t = Return (map str (firstn 7 t)))
    by (apply trailing_Return; auto).
  now rewrite H.
Qed.

Lemma cmd_built (t : list Z) (c : list string) :
  cmd t = Return c -> passable t /\ c = go_run ++ map str (firstn 7 t).
Proof.
  rewrite cmd_trailing. intros H.
  destruct (trailing 7 t) as [l | e] eqn:Ht; [| discriminate H].
  apply trailing_Return in Ht. destruct Ht as (Hk & Hf & ->).
  simpl in H. injection H as <-. repeat split; assumption.
Qed.

Lemma cmd_raise (t : list Z) (e : exn) :
  cmd t = Raise e <-> trailing 7 t = Raise e.
Proof.
  rewrite cmd_trailing.
  destruct (trailing 7 t) as [l | e']; simpl; split; congruence.
Qed.

(** Building a command raises nothing but [IndexError] and [ValueError]. *)
Lemma cmd_raises (t : list Z) (e : exn) :
  cmd t = Raise e -> e = IndexError \/ e = ValueError.
Proof. intros H. apply cmd_raise in H. exact (trailing_exn 7 t e H). Qed.

Lemma fits_leb (v : Z) : (digits v <=? int_max_str_digits)%nat = true -> fits v.
Proof. apply Nat.leb_le. Qed.

Lemma passable_check (t : list Z) :
  (7 <=? List.length t)%nat = true ->
  forallb (fun v => (digits v <=? int_max_str_digits)%nat) (firstn 7 t) = true ->
  passable t.
Proof.
  intros Hl Hf. split; [now apply Nat.leb_le |].
  apply Forall_forall. intros v Hv. apply fits_leb.
  exact (proj1 (forallb_forall _ _) Hf v Hv).
Qed.

Lemma args_seven : Forall (fun t => List.length t = 7%nat) args.
Proof. repeat constructor. Qed.

Lemma args_passable : Forall passable args.
Proof.
  unfold args.
  repeat (apply Forall_cons; [apply passable_check; vm_compute; reflexivity |]).
  apply Forall_nil.
Qed.

Lemma cmd_seven (t : list Z) :
  passable t -> List.length t = 7%nat -> cmd t = Return (go_run ++ map str t).
Proof.
  intros Hp H7. rewrite (cmd_passable t Hp), <- H7, firstn_all. reflexivity.
Qed.

(** C1: for every tuple of the embedded grid, the command built for it is
    [go run test1.go] followed by exactly seven further arguments, and these
    are the [str] of the tuple's seven fields in the tuple's order. *)
Theorem cmd_trailing_arguments (arg_set : list Z) :
  In arg_set args ->
  exists trailing : list string,
    cmd arg_set = Return (["go"; "run"; "test1.go"] ++ trailing) /\
    List.length trailing = 7%nat /\
    trailing = map str arg_set.
Proof.
  intros Hin.
  assert (H7 : List.length arg_set = 7%nat).
  { exact (proj1 (Forall_forall _ _) args_seven arg_set Hin). }
  assert (Hp : passable arg_set).
  { exact (proj1 (Forall_forall _ _) args_passable arg_set Hin). }
  exists (map str arg_set). split; [| split].
  - exact (cmd_seven arg_set Hp H7).
  - now rewrite length_map.
  - reflexivity.
Qed.

Lemma cmd_trailing_arguments_witness :
  exists trailing : list string,
    cmd [5; 512; 10000000000; 20; 10000; 100000; 76]%Z
      = Return (["go"; "run"; "test1.go"] ++ trailing) /\
    List.length trailing = 7%nat /\
    trailing = ["5"; "512"; "10000000000"; "20"; "10000"; "100000"; "76"].
Proof.
  apply (cmd_trailing_arguments [5; 512; 10000000000; 20; 10000; 100000; 76]%Z).
  simpl. tauto.
Defined.

(** ** The grid *)

(** C6: the grid is these five tuples, in this order: seven fields each, all
    positive, and only the fourth field (the number of bidders) varies, through
    5, 10, 15, 20, 40. *)
Theorem args_fixed :
  args = map (fun b => [5; 512; 10 ^ 10; b; 10000; 100000; 76]%Z)
             [5; 10; 15; 20; 40]%Z /\
  List.length args = 5%nat /\
  Forall (fun t => List.length t = 7%nat /\ Forall (fun v => (0 < v)%Z) t) args.
Proof.
  split; [reflexivity | split; [reflexivity |]].
  repeat constructor.
Qed.

(** ** Traces *)

Lemma launches_app (t1 t2 : list event) :
  launches (t1 ++ t2) = launches t1 ++ launches t2.
Proof. apply flat_map_app. Qed.

Lemma exits_app (t1 t2 : list event) : exits (t1 ++ t2) = exits t1 ++ exits t2.
Proof. apply flat_map_app. Qed.

Lemma prints_app (t1 t2 : list event) :
  prints (t1 ++ t2) = prints t1 ++ prints t2.
Proof. apply flat_map_app. Qed.

Lemma launches_iterations (cps : list CompletedProcess) :
  launches (flat_map iteration cps) = map cp_args cps.
Proof. induction cps as [|cp cps IH]; simpl; [reflexivity | now rewrite IH]. Qed.

Lemma exits_iterations (cps : list CompletedProcess) :
  exits (flat_map iteration cps) = cps.
Proof. induction cps as [|cp cps IH]; simpl; [reflexivity | now rewrite IH]. Qed.

Lemma prints_iterations (cps : list CompletedProcess) :
  prints (flat_map iteration cps) = map stdout cps.
Proof. induction cps as [|cp cps IH]; simpl; [reflexivity | now rewrite IH]. Qed.

Lemma cut_short_exits (tail : list event) : cut_short tail -> exits tail = [].
Proof. intros [-> | [c [-> | ->]]]; reflexivity. Qed.

Lemma cut_short_prints (tail : list event) : cut_short tail -> prints tail = [].
Proof. intros [-> | [c [-> | ->]]]; reflexivity. Qed.

(** In a trace made of complete iterations and possibly one launch that did
    not come back, whatever precedes a launch is made of children that have
    all exited. *)
Lemma launch_after_exits (cps : list CompletedProcess) :
  forall tail pre c post,
    cut_short tail ->
    flat_map iteration cps ++ tail = pre ++ Launch c :: post ->
    List.length (exits pre) = List.length (launches pre).
Proof.
  induction cps as [|cp cps IH]; intros tail pre c post Htail H.
  - simpl in H. destruct Htail as [-> | [c' [-> | ->]]].
    + destruct pre; discriminate H.
    + destruct pre as [|e1 [|e2 pre]]; [reflexivity | discriminate H |].
      destruct pre; discriminate H.
    + destruct pre as [|e1 [|e2 pre]]; [reflexivity | discriminate H |].
      destruct pre; discriminate H.
  - simpl in H.
    destruct pre as [|e1 [|e2 [|e3 pre]]]; try reflexivity; try discriminate H.
    injection H as <- <- <- H.
    simpl. f_equal. exact (IH tail pre c post Htail H).
Qed.

(** In such a trace every returned call is followed at once by the print of
    the child's standard output. *)
Lemma print_follows_exit (cps : list CompletedProcess) :
  forall tail pre cp post,
    cut_short tail ->
    flat_map iteration cps ++ tail = pre ++ Exited cp :: post ->
    exists post', post = Printed (stdout cp) :: post'.
Proof.
  induction cps as [|cp0 cps IH]; intros tail pre cp post Htail H.
  - simpl in H. destruct Htail as [-> | [c' [-> | ->]]].
    + destruct pre; discriminate H.
    + destruct pre as [|e1 [|e2 pre]]; try discriminate H.
      destruct pre; discriminate H.
    + destruct pre as [|e1 [|e2 pre]]; try discriminate H.
      destruct pre; discriminate H.
  - simpl in H.
    destruct pre as [|e1 [|e2 [|e3 pre]]]; try discriminate H.
    + injection H as _ <- <-. eexists. reflexivity.
    + injection H as _ _ _ H. exact (IH tail pre cp post Htail H).
Qed.

(** ** One iteration, then the whole sweep *)

Lemma ended_cut_short grid n r tail : ended grid n r tail -> cut_short tail.
Proof.
  destruct r as [u | [| | |]]; simpl.
  - left; tauto.
  - left; tauto.
  - left; tauto.
  - intros (t & c & _ & _ & ->). right. exists c. now left.
  - intros (t & c & _ & _ & ->). right. exists c. now right.
Qed.

Lemma ended_short grid n r tail :
  ended grid n r tail -> forall e, r = Raise e -> (n < List.length grid)%nat.
Proof.
  intros H e ->.
  destruct e; simpl in H.
  - destruct H as (_ & t & Hn & _). apply nth_error_Some. congruence.
  - destruct H as (_ & t & Hn & _). apply nth_error_Some. congruence.
  - destruct H as (t & c & Hn & _). apply nth_error_Some. congruence.
  - destruct H as (t & c & Hn & _). apply nth_error_Some. congruence.
Qed.

Lemma firstn_snoc {A : Type} (l : list A) :
  forall n a, nth_error l n = Some a -> firstn (S n) l = firstn n l ++ [a].
Proof.
  induction l as [|b l IH]; intros [|n] a H; try discriminate H.
  - injection H as ->. now destruct l.
  - cbn [firstn app]. f_equal. apply (IH n a H).
Qed.

Lemma commands_of_children (grid : list (list Z)) (cps : list CompletedProcess) :
  Forall2 (fun t cp => command_of t (cp_args cp)) grid cps ->
  Forall2 command_of grid (map cp_args cps).
Proof. induction 1; simpl; constructor; assumption. Qed.

(** The launches of a run, complete or not, go through the grid from its
    front. *)
Lemma ended_launches grid cps r tail :
  Forall2 (fun t cp => command_of t (cp_args cp))
          (firstn (List.length cps) grid) cps ->
  ended grid (List.length cps) r tail ->
  Forall2 command_of
          (firstn (List.length (map cp_args cps ++ launches tail)) grid)
          (map cp_args cps ++ launches tail).
Proof.
  intros Hcmd Hend. apply commands_of_children in Hcmd.
  assert (Hlast : forall t c,
             nth_error grid (List.length cps) = Some t -> command_of t c ->
             Forall2 command_of
               (firstn (List.length (map cp_args cps ++ [c])) grid)
               (map cp_args cps ++ [c])).
  { intros t c Hnth Hc. rewrite length_app, length_map. simpl.
    rewrite Nat.add_1_r, (firstn_snoc grid _ t Hnth).
    apply Forall2_app; [exact Hcmd | now constructor]. }
  destruct r as [u | [| | |]]; simpl in Hend.
  - destruct Hend as [-> _]. simpl. now rewrite List.app_nil_r, length_map.
  - destruct Hend as [-> _]. simpl. now rewrite List.app_nil_r, length_map.
  - destruct Hend as [-> _]. simpl. now rewrite List.app_nil_r, length_map.
  - destruct Hend as (t & c & Hnth & Hc & ->). exact (Hlast t c Hnth Hc).
  - destruct Hend as (t & c & Hnth & Hc & ->). exact (Hlast t c Hnth Hc).
Qed.

Section Sweep.

Context {os : Type}.
Variable spawn : list string -> os -> option Terminated * os.

(** The four ways through the loop body. *)
Lemma body_cmd_raise (t : list Z) (e : exn) (w : world os) :
  cmd t = Raise e -> body spawn t w = (Raise e, w).
Proof. intros H. unfold body, lift. simpl. now rewrite H. Qed.

Lemma body_refused (t : list Z) (c : list string) (w : world os) (h : os) :
  cmd t = Return c ->
  spawn c (host w) = (None, h) ->
  body spawn t w =
    (Raise OSError,
     {| host := h; sys_stdout := sys_stdout w;
        trace := trace w ++ [Launch c; LaunchError] |}).
Proof.
  intros Hc Hs. unfold body, lift, subprocess_run. simpl.
  now rewrite Hc, Hs.
Qed.

Lemma body_undecodable (t : list Z) (c : list string) (w : world os)
    (r : Terminated) (h : os) :
  cmd t = Return c ->
  spawn c (host w) = (Some r, h) ->
  decoded r = None ->
  body spawn t w =
    (Raise UnicodeDecodeError,
     {| host := h; sys_stdout := sys_stdout w;
        trace := trace w ++ [Launch c; DecodeError] |}).
Proof.
  intros Hc Hs Hd. unfold body, lift, subprocess_run. simpl.
  now rewrite Hc, Hs, Hd.
Qed.

Lemma body_exited (t : list Z) (c : list string) (w : world os)
    (r : Terminated) (x : ChildExit) (h : os) :
  cmd t = Return c ->
  spawn c (host w) = (Some r, h) ->
  decoded r = Some x ->
  body spawn t w =
    (Return tt,
     {| host := h;
        sys_stdout := sys_stdout w ++ out x ++ newline;
        trace := trace w ++ iteration (completed c x) |}).
Proof.
  intros Hc Hs Hd. unfold body, lift, subprocess_run, print. simpl.
  rewrite Hc, Hs, Hd. simpl. now rewrite <- List.app_assoc.
Qed.

Lemma decoded_text_exit (x : ChildExit) : decoded (text_exit x) = Some x.
Proof. now destruct x. Qed.

Lemma sweep_cons (t : list Z) (rest : list (list Z)) (w : world os) :
  sweep spawn (t :: rest) w =
    match body spawn t w with
    | (Return _, w') => sweep spawn rest w'
    | (Raise e, w') => (Raise e, w')
    end.
Proof. reflexivity. Qed.

(** The shape of every run of the loop, from any world: some number of
    complete iterations, one per tuple from the front of the grid, and then
    either the end of the grid, a tuple whose command cannot be built, a
    launch the host refuses, or a child whose output does not decode. *)
Lemma sweep_shape (grid : list (list Z)) :
  forall w : world os,
  exists (cps : list CompletedProcess) (tail : list event),
    trace (snd (sweep spawn grid w)) = trace w ++ flat_map iteration cps ++ tail /\
    sys_stdout (snd (sweep spawn grid w))
      = (sys_stdout w ++ lines (map stdout cps))%string /\
    Forall2 (fun t cp => command_of t (cp_args cp))
            (firstn (List.length cps) grid) cps /\
    served spawn (map cp_args cps ++ launches tail) (host w) = cps /\
    ended grid (List.length cps) (fst (sweep spawn grid w)) tail.
Proof.
  induction grid as [|t rest IH]; intros w.
  - exists [], []. simpl. rewrite append_nil_r, List.app_nil_r.
    repeat split; constructor.
  - rewrite sweep_cons.
    destruct (cmd t) as [c | e] eqn:Hc.
    + destruct (spawn c (host w)) as [[r |] h] eqn:Hs;
        [destruct (decoded r) as [x |] eqn:Hd |].
      * rewrite (body_exited t c w r x h Hc Hs Hd).
        set (w' := {| host := h; sys_stdout := _; trace := _ |}).
        destruct (IH w') as (cps & tail & Htr & Hout & Hcmd & Hsrv & Hend).
        exists (completed c x :: cps), tail.
        split; [| split; [| split; [| split]]].
        -- rewrite Htr. subst w'. cbn [trace flat_map].
           now rewrite <- !List.app_assoc.
        -- rewrite Hout. subst w'. cbn [sys_stdout map lines stdout completed].
           now rewrite !append_assoc.
        -- cbn [List.length firstn]. constructor; assumption.
        -- cbn [map app served cp_args completed]. rewrite Hs, Hd.
           f_equal. exact Hsrv.
        -- unfold ended in *. cbn [List.length nth_error].
           destruct (fst (sweep spawn rest w')) as [u | [| | |]].
           ++ destruct Hend as [-> Hlen]. now rewrite Hlen.
           ++ exact Hend.
           ++ exact Hend.
           ++ exact Hend.
           ++ exact Hend.
      * rewrite (body_undecodable t c w r h Hc Hs Hd).
        exists [], [Launch c; DecodeError]. cbn.
        rewrite append_nil_r, Hs, Hd. repeat split; try constructor.
        exists t, c. repeat split; assumption.
      * rewrite (body_refused t c w h Hc Hs).
        exists [], [Launch c; LaunchError]. cbn.
        rewrite append_nil_r, Hs. repeat split; try constructor.
        exists t, c. repeat split; assumption.
    + rewrite (body_cmd_raise t e w Hc).
      exists [], []. cbn [fst snd flat_map map app List.length firstn served lines launches].
      rewrite append_nil_r, List.app_nil_r.
      repeat split; try constructor.
      destruct (cmd_raises t e Hc) as [-> | ->]; simpl;
        (split; [reflexivity | exists t; split; [reflexivity | exact Hc]]).
Qed.

End Sweep.

(** ** Runs from a fresh interpreter *)

Section Runs.

Context {os : Type}.
Variable spawn : list string -> os -> option Terminated * os.

(** The shape lemma, read off the final world of a run. *)
Lemma run_shape (grid : list (list Z)) (h : os) :
  exists (cps : list CompletedProcess) (tail : list event),
    trace (snd (python (sweep spawn grid) h)) = flat_map iteration cps ++ tail /\
    sys_stdout (snd (python (sweep spawn grid) h)) = lines (map stdout cps) /\
    Forall2 (fun t cp => command_of t (cp_args cp))
            (firstn (List.length cps) grid) cps /\
    served spawn (map cp_args cps ++ launches tail) h = cps /\
    ended grid (List.length cps) (fst (python (sweep spawn grid) h)) tail.
Proof.
  unfold python.
  destruct (sweep_shape spawn grid {| host := h; sys_stdout := ""; trace := [] |})
    as (cps & tail & Htr & Hout & Hcmd & Hsrv & Hend).
  exists cps, tail. cbn [trace sys_stdout host] in Htr, Hout, Hsrv. tauto.
Qed.

(** With tuples whose commands can be built and a program that starts, exits
    and writes text, nothing in the loop raises. *)
Lemma sweep_returns (grid : list (list Z)) :
  Forall passable grid ->
  program_runs spawn ->
  forall w : world os, fst (sweep spawn grid w) = Return tt.
Proof.
  intros Hgrid Hrun.
  induction Hgrid as [|t rest Ht _ IH]; intros w; [reflexivity |].
  rewrite sweep_cons.
  destruct (Hrun (go_run ++ map str (firstn 7 t)) (host w)) as (x & h & Hs).
  rewrite (body_exited spawn t _ w _ x h (cmd_passable t Ht) Hs
             (decoded_text_exit x)).
  apply IH.
Qed.

(** Then the trace is exactly one complete iteration per tuple. *)
Lemma run_complete (grid : list (list Z)) (h : os) :
  Forall passable grid ->
  program_runs spawn ->
  exists cps : list CompletedProcess,
    fst (python (sweep spawn grid) h) = Return tt /\
    Forall2 (fun t cp => command_of t (cp_args cp)) grid cps /\
    trace (snd (python (sweep spawn grid) h)) = flat_map iteration cps /\
    sys_stdout (snd (python (sweep spawn grid) h)) = lines (map stdout cps).
Proof.
  intros Hgrid Hrun.
  destruct (run_shape grid h) as (cps & tail & Htr & Hout & Hcmd & _ & Hend).
  assert (Hret : fst (python (sweep spawn grid) h) = Return tt)
    by apply (sweep_returns grid Hgrid Hrun).
  rewrite Hret in Hend. destruct Hend as [-> Hlen].
  rewrite Hlen, firstn_all in Hcmd. rewrite List.app_nil_r in Htr.
  exists cps. tauto.
Qed.

(** C2, as amended: every call of [subprocess.run] that returned belongs to a
    tuple of the grid, the calls coming in grid order, and what it returned is
    what the host's child left; the script's standard output holds, for each
    of them in that order, the child's standard output and a newline, each
    text being printed as soon as the call has returned.  When every tuple's
    command can be built and every launch gives a child that exits with output
    that decodes, the call returns, and the text is printed, for every tuple
    of the grid. *)
Theorem prints_each_child_stdout (grid : list (list Z)) (h : os) :
  let r := python (sweep spawn grid) h in
  let tr := trace (snd r) in
  Forall2 (fun t cp => command_of t (cp_args cp))
          (firstn (List.length (exits tr)) grid) (exits tr) /\
  exits tr = served spawn (launches tr) h /\
  prints tr = map stdout (exits tr) /\
  sys_stdout (snd r) = lines (map stdout (exits tr)) /\
  (forall pre cp post,
      tr = pre ++ Exited cp :: post ->
      exists post', post = Printed (stdout cp) :: post') /\
  (Forall passable grid ->
   program_runs spawn ->
   fst r = Return tt /\ List.length (exits tr) = List.length grid).
Proof.
  cbv zeta.
  destruct (run_shape grid h) as (cps & tail & Htr & Hout & Hcmd & Hsrv & Hend).
  pose proof (ended_cut_short _ _ _ _ Hend) as Htail.
  assert (He : exits (trace (snd (python (sweep spawn grid) h))) = cps).
  { rewrite Htr, exits_app, exits_iterations, (cut_short_exits tail Htail).
    apply List.app_nil_r. }
  rewrite He. split; [exact Hcmd | split; [| split; [| split; [| split]]]].
  - rewrite Htr, launches_app, launches_iterations. symmetry. exact Hsrv.
  - rewrite Htr, prints_app, prints_iterations, (cut_short_prints tail Htail).
    apply List.app_nil_r.
  - exact Hout.
  - intros pre cp post H. rewrite Htr in H.
    exact (print_follows_exit cps tail pre cp post Htail H).
  - intros Hgrid Hrun.
    pose proof (sweep_returns grid Hgrid Hrun
                  {| host := h; sys_stdout := ""; trace := [] |}) as Hret.
    fold (python (sweep spawn grid) h) in Hret.
    rewrite Hret in Hend. split; [exact Hret | exact (proj2 Hend)].
Qed.

(** C3, as amended: when every tuple has seven fields that [str] accepts and
    every launch gives a child that starts, runs to its exit and writes output
    that decodes, the commands launched are, position by position, the
    commands of the grid's tuples: as many launches as tuples, and as many
    children run to their exit. *)
Theorem one_launch_per_tuple (grid : list (list Z)) (h : os) :
  Forall passable grid ->
  program_runs spawn ->
  let tr := trace (snd (python (sweep spawn grid) h)) in
  Forall2 command_of grid (launches tr) /\
  List.length (launches tr) = List.length grid /\
  List.length (exits tr) = List.length grid.
Proof.
  intros Hgrid Hrun. cbv zeta.
  destruct (run_complete grid h Hgrid Hrun) as (cps & _ & Hcmd & Htr & _).
  rewrite Htr, launches_iterations, exits_iterations.
  pose proof (commands_of_children grid cps Hcmd) as H.
  pose proof (Forall2_length H) as Hlen.
  rewrite length_map in *. repeat split; auto.
Qed.

(** C4: the launches follow the grid's order, and whenever a launch begins,
    every child launched before it has already exited: no two children are
    ever alive together. *)
Theorem launches_sequential (grid : list (list Z)) (h : os) :
  let tr := trace (snd (python (sweep spawn grid) h)) in
  Forall2 command_of (firstn (List.length (launches tr)) grid) (launches tr) /\
  (forall pre c post,
      tr = pre ++ Launch c :: post ->
      List.length (exits pre) = List.length (launches pre)).
Proof.
  cbv zeta.
  destruct (run_shape grid h) as (cps & tail & Htr & _ & Hcmd & _ & Hend).
  split.
  - rewrite Htr, launches_app, launches_iterations.
    exact (ended_launches grid cps _ tail Hcmd Hend).
  - intros pre c post H. rewrite Htr in H.
    exact (launch_after_exits cps tail pre c post (ended_cut_short _ _ _ _ Hend) H).
Qed.

(** C5, as amended: for a grid whose tuples have seven fields that [str]
    accepts, on a host where every launch yields a child that runs to an exit
    -- with any exit status, zero or not -- and writes output that decodes
    -- any text, empty or not -- the loop raises nothing, every tuple of the
    grid gets its launch and its child, and the interpreter exits with
    status 0. *)
Theorem sweep_ignores_exit_codes (grid : list (list Z)) (h : os) :
  Forall passable grid ->
  program_runs spawn ->
  let r := python (sweep spawn grid) h in
  fst r = Return tt /\
  exit_status (fst r) = 0%Z /\
  Forall2 (fun t cp => command_of t (cp_args cp)) grid (exits (trace (snd r))) /\
  List.length (launches (trace (snd r))) = List.length grid.
Proof.
  intros Hgrid Hrun. cbv zeta.
  destruct (run_complete grid h Hgrid Hrun) as (cps & Hret & Hcmd & Htr & _).
  rewrite Hret, Htr, exits_iterations, launches_iterations, length_map.
  repeat split; try assumption.
  symmetry. exact (Forall2_length Hcmd).
Qed.

(** C7: on an empty grid the run launches nothing, prints nothing, leaves the
    host untouched and ends with exit status 0, on any host. *)
Theorem empty_grid_silent (h : os) :
  python (sweep spawn []) h
    = (Return tt, {| host := h; sys_stdout := ""; trace := [] |}) /\
  launches (trace (snd (python (sweep spawn []) h))) = [] /\
  sys_stdout (snd (python (sweep spawn []) h)) = "" /\
  exit_status (fst (python (sweep spawn []) h)) = 0%Z.
Proof. repeat split. Qed.


End Runs.

(** ** Two runs side by side *)

Section TwoHosts.

Context {os1 os2 : Type}.
Variable spawn1 : list string -> os1 -> option Terminated * os1.
Variable spawn2 : list string -> os2 -> option Terminated * os2.

Lemma sweep_same_stdout (R : os1 -> os2 -> Prop) (grid : list (list Z)) :
  same_stdout spawn1 spawn2 R ->
  forall w1 w2,
    R (host w1) (host w2) ->
    observably_equal w1 w2 ->
    fst (sweep spawn1 grid w1) = fst (sweep spawn2 grid w2) /\
    observably_equal (snd (sweep spawn1 grid w1)) (snd (sweep spawn2 grid w2)).
Proof.
  intros Hsim.
  induction grid as [|t rest IH]; intros w1 w2 HR Hobs; [now split |].
  rewrite !sweep_cons.
  destruct Hobs as (Hout & Hl & Hp).
  destruct (cmd t) as [c | e] eqn:Hc.
  - specialize (Hsim c (host w1) (host w2) HR).
    destruct (spawn1 c (host w1)) as [[r1 |] a'] eqn:H1;
      destruct (spawn2 c (host w2)) as [[r2 |] b'] eqn:H2;
      try contradiction.
    + destruct (decoded r1) as [x |] eqn:D1;
        destruct (decoded r2) as [y |] eqn:D2; try contradiction.
      * destruct Hsim as [Hxy HR'].
        rewrite (body_exited spawn1 t c w1 r1 x a' Hc H1 D1).
        rewrite (body_exited spawn2 t c w2 r2 y b' Hc H2 D2).
        apply IH; [exact HR' |].
        unfold observably_equal, iteration, completed.
        cbn [sys_stdout trace stdout cp_args].
        rewrite !launches_app, !prints_app, Hout, Hl, Hp, Hxy.
        repeat split.
      * rewrite (body_undecodable spawn1 t c w1 r1 a' Hc H1 D1).
        rewrite (body_undecodable spawn2 t c w2 r2 b' Hc H2 D2).
        unfold observably_equal. cbn [fst snd sys_stdout trace].
        rewrite !launches_app, !prints_app, Hout, Hl, Hp.
        repeat split.
    + rewrite (body_refused spawn1 t c w1 a' Hc H1).
      rewrite (body_refused spawn2 t c w2 b' Hc H2).
      unfold observably_equal. cbn [fst snd sys_stdout trace].
      rewrite !launches_app, !prints_app, Hout, Hl, Hp.
      repeat split.
  - rewrite (body_cmd_raise spawn1 t e w1 Hc).
    rewrite (body_cmd_raise spawn2 t e w2 Hc).
    repeat split; assumption.
Qed.

(** C8, as amended: take two runs of the sweep over the same grid, on hosts
    whose children, launch after launch, either write the same standard output
    and output that decodes on both, or output that does not decode on both,
    or cannot be started on both, but are free to differ in exit status and in
    the text of their standard error.  The two runs end the same way, with the
    same exit status and the same text on the script's standard output, after
    launching the same commands. *)
Theorem output_independent_of_status_and_stderr
    (R : os1 -> os2 -> Prop) (grid : list (list Z)) (h1 : os1) (h2 : os2) :
  same_stdout spawn1 spawn2 R ->
  R h1 h2 ->
  let r1 := python (sweep spawn1 grid) h1 in
  let r2 := python (sweep spawn2 grid) h2 in
  sys_stdout (snd r1) = sys_stdout (snd r2) /\
  exit_status (fst r1) = exit_status (fst r2) /\
  fst r1 = fst r2 /\
  launches (trace (snd r1)) = launches (trace (snd r2)).
Proof.
  intros Hsim HR. cbv zeta. unfold python.
  destruct (sweep_same_stdout R grid Hsim
              {| host := h1; sys_stdout := ""; trace := [] |}
              {| host := h2; sys_stdout := ""; trace := [] |} HR)
    as (Hres & Hout & Hl & _); [repeat split |].
  rewrite Hres. repeat split; assumption.
Qed.

(** C10: with the external program a fixed function [f] from command line to
    standard-output text, two executions over the same grid, on any two hosts
    that run [f] and from any two host states, build the same sequence of
    commands and leave the same text on the script's standard output. *)
Theorem sweep_deterministic (f : list string -> string)
    (grid : list (list Z)) (h1 : os1) (h2 : os2) :
  runs_program f spawn1 ->
  runs_program f spawn2 ->
  let w1 := snd (python (sweep spawn1 grid) h1) in
  let w2 := snd (python (sweep spawn2 grid) h2) in
  launches (trace w1) = launches (trace w2) /\
  sys_stdout w1 = sys_stdout w2.
Proof.
  intros Hf1 Hf2. cbv zeta. unfold python.
  destruct (sweep_same_stdout (fun _ _ => True) grid) with
    (w1 := {| host := h1; sys_stdout := ""; trace := [] |})
    (w2 := {| host := h2; sys_stdout := ""; trace := [] |})
    as (_ & Hout & Hl & _).
  - intros c a b _.
    destruct (Hf1 c a) as (x & a' & -> & Hx).
    destruct (Hf2 c b) as (y & b' & -> & Hy).
    rewrite !decoded_text_exit.
    split; [congruence | exact I].
  - exact I.
  - repeat split.
  - split; assumption.
Qed.

End TwoHosts.

(** ** The embedded grid on the test doubles *)

Lemma echo_stub_runs : program_runs echo_stub.
Proof. intros c h. unfold echo_stub. now eexists; eexists. Qed.

Lemma moody_stub_runs : program_runs moody_stub.
Proof. intros c h. unfold moody_stub. now eexists; eexists. Qed.

Lemma failing_stub_runs : program_runs failing_stub.
Proof. intros c h. unfold failing_stub. now eexists; eexists. Qed.

Lemma echo_stub_echoes : runs_program echo echo_stub.
Proof. intros c h. unfold echo_stub. eexists; eexists. split; reflexivity. Qed.

Lemma moody_stub_echoes : runs_program echo moody_stub.
Proof. intros c h. unfold moody_stub. eexists; eexists. split; reflexivity. Qed.

Lemma stubs_same_stdout : same_stdout echo_stub moody_stub (fun _ _ => True).
Proof. intros c a b _. simpl. split; [reflexivity | exact I]. Qed.

(** With the echoing stub in place of the simulator, the script's output shows
    each tuple's seven values, in order, after the fixed head of the command. *)
Example runScript_echo :
  sys_stdout (snd (python (runScript echo_stub) tt)) =
    lines [ echo ["go"; "run"; "test1.go"; "5"; "512"; "10000000000"; "5"; "10000"; "100000"; "76"];
            echo ["go"; "run"; "test1.go"; "5"; "512"; "10000000000"; "10"; "10000"; "100000"; "76"];
            echo ["go"; "run"; "test1.go"; "5"; "512"; "10000000000"; "15"; "10000"; "100000"; "76"];
            echo ["go"; "run"; "test1.go"; "5"; "512"; "10000000000"; "20"; "10000"; "100000"; "76"];
            echo ["go"; "run"; "test1.go"; "5"; "512"; "10000000000"; "40"; "10000"; "100000"; "76"] ].
Proof. vm_compute. reflexivity. Qed.

(** With the failing stub, five children, five empty lines, a normal end. *)
Example runScript_failing :
  let r := python (runScript failing_stub) 0%nat in
  fst r = Return tt /\
  host (snd r) = 5%nat /\
  map returncode (exits (trace (snd r))) = [1; 1; 1; 1; 1]%Z /\
  sys_stdout (snd r) = lines [""; ""; ""; ""; ""].
Proof. vm_compute. repeat split. Qed.

(** A tuple whose first field has 4301 digits raises [ValueError] at that
    field, before the missing second field is ever indexed. *)
Example cmd_huge_first : cmd [huge] = Raise ValueError.
Proof.
  apply cmd_raise. cbn [trailing].
  rewrite (py_str_huge huge); [reflexivity |].
  unfold huge. rewrite Z.abs_eq; [lia | apply Z.pow_nonneg; lia].
Qed.

(** C2, the counterexample: the first child of the embedded grid terminates
    with status 0 after writing bytes that are not text; [subprocess.run]
    raises, nothing is printed for that child, and the run ends there. *)
Lemma undecodable_output_not_printed :
  let r := python (runScript binary_stub) tt in
  fst (binary_stub ["go"; "run"; "test1.go"; "5"; "512"; "10000000000"; "5";
                    "10000"; "100000"; "76"] tt)
    = Some {| status := 0; out_stream := Undecodable; err_stream := Text "" |} /\
  trace (snd r)
    = [Launch ["go"; "run"; "test1.go"; "5"; "512"; "10000000000"; "5";
               "10000"; "100000"; "76"];
       DecodeError] /\
  prints (trace (snd r)) = [] /\
  sys_stdout (snd r) = "" /\
  fst r = Raise UnicodeDecodeError.
Proof. vm_compute. repeat split. Qed.

(** C3, the counterexample: where the program cannot be started, the first
    [subprocess.run] raises, nothing catches it, and the run of the five-tuple
    grid ends there with one launch attempted, no child run, nothing printed
    and exit status 1. *)
Lemma refused_launch_ends_run :
  let r := python (runScript no_program) tt in
  List.length args = 5%nat /\
  List.length (launches (trace (snd r))) = 1%nat /\
  List.length (exits (trace (snd r))) = 0%nat /\
  List.length (launches (trace (snd r))) <> List.length args /\
  fst r = Raise OSError /\
  exit_status (fst r) = 1%Z /\
  sys_stdout (snd r) = "".
Proof. vm_compute. repeat split. discriminate. Qed.

(** C8, the counterexample: two stubs write the same standard output at every
    launch and exit with the same status; one writes nothing to its standard
    error, the other a byte that is not text.  The first run prints five lines
    and exits with status 0; the second prints nothing and exits with
    status 1. *)
Lemma undecodable_stderr_changes_output :
  let r1 := python (runScript echo_stub) tt in
  let r2 := python (runScript noisy_echo_stub) tt in
  (forall c, option_map out_stream (fst (echo_stub c tt))
             = option_map out_stream (fst (noisy_echo_stub c tt)) /\
             option_map status (fst (echo_stub c tt))
             = option_map status (fst (noisy_echo_stub c tt))) /\
  List.length (prints (trace (snd r1))) = 5%nat /\
  sys_stdout (snd r2) = "" /\
  sys_stdout (snd r1) <> sys_stdout (snd r2) /\
  exit_status (fst r1) = 0%Z /\
  exit_status (fst r2) = 1%Z.
Proof.
  cbv zeta. split; [intros c; split; reflexivity |].
  vm_compute. repeat split. discriminate.
Qed.

Lemma prints_each_child_stdout_witness :
  Forall passable args /\
  program_runs echo_stub /\
  let r := python (sweep echo_stub args) tt in
  fst r = Return tt /\
  List.length (exits (trace (snd r))) = 5%nat.
Proof.
  split; [exact args_passable | split; [exact echo_stub_runs |]].
  exact (proj2 (proj2 (proj2 (proj2 (proj2
           (prints_each_child_stdout echo_stub args tt)))))
           args_passable echo_stub_runs).
Defined.

Lemma one_launch_per_tuple_witness :
  Forall passable args /\
  program_runs echo_stub /\
  let tr := trace (snd (python (sweep echo_stub args) tt)) in
  Forall2 command_of args (launches tr) /\
  List.length (launches tr) = 5%nat /\
  List.length (exits tr) = 5%nat.
Proof.
  split; [exact args_passable | split; [exact echo_stub_runs |]].
  exact (one_launch_per_tuple echo_stub args tt args_passable echo_stub_runs).
Defined.

Lemma sweep_ignores_exit_codes_witness :
  Forall passable args /\
  program_runs failing_stub /\
  let r := python (sweep failing_stub args) 0%nat in
  fst r = Return tt /\
  exit_status (fst r) = 0%Z /\
  Forall2 (fun t cp => command_of t (cp_args cp)) args (exits (trace (snd r))) /\
  List.length (launches (trace (snd r))) = 5%nat.
Proof.
  split; [exact args_passable | split; [exact failing_stub_runs |]].
  exact (sweep_ignores_exit_codes failing_stub args 0%nat
           args_passable failing_stub_runs).
Defined.

Lemma output_independent_of_status_and_stderr_witness :
  same_stdout echo_stub moody_stub (fun _ _ => True) /\
  let r1 := python (sweep echo_stub args) tt in
  let r2 := python (sweep moody_stub args) 0%nat in
  sys_stdout (snd r1) = sys_stdout (snd r2) /\
  exit_status (fst r1) = exit_status (fst r2) /\
  fst r1 = fst r2 /\
  launches (trace (snd r1)) = launches (trace (snd r2)).
Proof.
  split; [exact stubs_same_stdout |].
  exact (output_independent_of_status_and_stderr echo_stub moody_stub
           (fun _ _ => True) args tt 0%nat stubs_same_stdout I).
Defined.

Lemma sweep_deterministic_witness :
  runs_program echo echo_stub /\
  runs_program echo moody_stub /\
  let w1 := snd (python (sweep echo_stub args) tt) in
  let w2 := snd (python (sweep moody_stub args) 7%nat) in
  launches (trace w1) = launches (trace w2) /\
  sys_stdout w1 = sys_stdout w2.
Proof.
  split; [exact echo_stub_echoes | split; [exact moody_stub_echoes |]].
  exact (sweep_deterministic echo_stub moody_stub echo args tt 7%nat
           echo_stub_echoes moody_stub_echoes).
Defined.

(** * Further properties of the script *)

(** ** The command line, for any tuple *)

(** X1: what building the command does, for any tuple.  It raises
    [ValueError] exactly when one of the first seven fields has more digits
    than [str] accepts; it raises [IndexError] exactly when the tuple has fewer
    than seven fields and [str] accepts them all; it returns a command exactly
    when the tuple has seven fields and [str] accepts the first seven; and it
    raises nothing else. *)
Theorem cmd_outcome (t : list Z) :
  (cmd t = Raise ValueError <->
   Exists (fun v => (int_max_str_digits < digits v)%nat) (firstn 7 t)) /\
  (cmd t = Raise IndexError <->
   (List.length t < 7)%nat /\
   Forall (fun v => (digits v <= int_max_str_digits)%nat) t) /\
  ((exists c, cmd t = Return c) <->
   (7 <= List.length t)%nat /\
   Forall (fun v => (digits v <= int_max_str_digits)%nat) (firstn 7 t)) /\
  (forall e, cmd t = Raise e -> e = IndexError \/ e = ValueError).
Proof.
  split; [| split; [| split]].
  - rewrite cmd_raise, trailing_ValueError. unfold fits.
    split; intros H; (eapply Exists_impl; [| exact H]); simpl; intros; lia.
  - rewrite cmd_raise. apply trailing_IndexError.
  - split.
    + intros [c H]. exact (proj1 (cmd_built t c H)).
    + intros H. eexists. exact (cmd_passable t H).
  - exact (cmd_raises t).
Qed.

(** X2: only the first seven fields of a tuple reach the command line: a
    longer tuple builds the command of its first seven fields, silently. *)
Theorem cmd_ignores_extra_fields (t : list Z) :
  cmd t = cmd (firstn 7 t).
Proof. rewrite !cmd_trailing, <- trailing_firstn. reflexivity. Qed.

Lemma map_int_str (l : list Z) : map int (map str l) = map Some l.
Proof.
  induction l as [|n l IH]; simpl; [reflexivity |].
  now rewrite int_str, IH.
Qed.

(** X3: a command that was built has ten elements, [go run test1.go] first,
    and reading its seven trailing arguments back as integers gives the
    tuple's first seven fields, in order: the command line loses nothing of
    the fields it passes. *)
Theorem cmd_round_trip (t : list Z) (c : list string) :
  cmd t = Return c ->
  List.length c = 10%nat /\
  firstn 3 c = ["go"; "run"; "test1.go"] /\
  map int (skipn 3 c) = map Some (firstn 7 t).
Proof.
  intros H. destruct (cmd_built t c H) as [[Hi _] ->].
  unfold indexable in Hi. split; [| split].
  - unfold go_run. cbn [app List.length].
    rewrite length_map, length_firstn. lia.
  - reflexivity.
  - change (skipn 3 (go_run ++ map str (firstn 7 t)))
      with (map str (firstn 7 t)).
    apply map_int_str.
Qed.

Lemma cmd_round_trip_witness :
  cmd [3; -12; 0; 7; 1; 2; 99; 1000]%Z
    = Return ["go"; "run"; "test1.go"; "3"; "-12"; "0"; "7"; "1"; "2"; "99"] /\
  map int ["3"; "-12"; "0"; "7"; "1"; "2"; "99"]
    = map Some [3; -12; 0; 7; 1; 2; 99]%Z.
Proof.
  split; [reflexivity |].
  exact (proj2 (proj2 (cmd_round_trip [3; -12; 0; 7; 1; 2; 99; 1000]%Z _ eq_refl))).
Defined.

(** ** The loop, on any host *)

Section MoreSweep.

Context {os : Type}.
Variable spawn : list string -> os -> option Terminated * os.

Lemma sweep_app_match (g1 g2 : list (list Z)) :
  forall w : world os,
    sweep spawn (g1 ++ g2) w =
      match sweep spawn g1 w with
      | (Return _, w') => sweep spawn g2 w'
      | (Raise e, w') => (Raise e, w')
      end.
Proof.
  induction g1 as [|t g1 IH]; intros w; [reflexivity |].
  cbn [app]. rewrite !sweep_cons.
  destruct (body spawn t w) as [[u | e] w']; [apply IH | reflexivity].
Qed.

(** X4: the loop over two grids put end to end is the loop over the first
    followed, when nothing was raised, by the loop over the second in the
    world the first one left; an exception in the first part ends it all. *)
Theorem sweep_app (g1 g2 : list (list Z)) (w : world os) :
  sweep spawn (g1 ++ g2) w = (sweep spawn g1 ;; sweep spawn g2) w.
Proof. exact (sweep_app_match g1 g2 w). Qed.

(** X5: the loop only ever appends: from any world, the trace it leaves is the
    old trace followed by new events, and the standard output it leaves is the
    old text followed by the line of each new print. *)
Theorem sweep_appends (grid : list (list Z)) (w : world os) :
  exists evs : list event,
    trace (snd (sweep spawn grid w)) = trace w ++ evs /\
    sys_stdout (snd (sweep spawn grid w))
      = (sys_stdout w ++ lines (prints evs))%string.
Proof.
  destruct (sweep_shape spawn grid w) as (cps & tail & Htr & Hout & _ & _ & Hend).
  exists (flat_map iteration cps ++ tail). split; [exact Htr |].
  rewrite Hout, prints_app, prints_iterations,
    (cut_short_prints tail (ended_cut_short _ _ _ _ Hend)), List.app_nil_r.
  reflexivity.
Qed.

(** X6: the script runs to its end without an exception exactly when
    [subprocess.run] returned for every tuple of the grid. *)
Theorem returns_iff_every_call_returned (grid : list (list Z)) (h : os) :
  fst (python (sweep spawn grid) h) = Return tt <->
  List.length (exits (trace (snd (python (sweep spawn grid) h))))
    = List.length grid.
Proof.
  destruct (run_shape spawn grid h) as (cps & tail & Htr & _ & _ & _ & Hend).
  rewrite Htr, exits_app, exits_iterations,
    (cut_short_exits tail (ended_cut_short _ _ _ _ Hend)), List.app_nil_r.
  destruct (fst (python (sweep spawn grid) h)) as [[] | e] eqn:Hr.
  - simpl in Hend. tauto.
  - pose proof (ended_short _ _ _ _ Hend e eq_refl).
    split; [discriminate | lia].
Qed.


Lemma sweep_cmd_raise (good : list (list Z)) (bad : list Z)
    (rest : list (list Z)) (e : exn) :
  Forall passable good ->
  cmd bad = Raise e ->
  program_runs spawn ->
  forall w : world os,
    sweep spawn (good ++ bad :: rest) w = (Raise e, snd (sweep spawn good w)).
Proof.
  intros Hgood Hbad Hrun w. rewrite sweep_app_match.
  pose proof (sweep_returns spawn good Hgood Hrun w) as Hret.
  destruct (sweep spawn good w) as [r w'] eqn:Hs. simpl in Hret. subst r.
  rewrite sweep_cons, (body_cmd_raise spawn bad e w' Hbad). reflexivity.
Qed.

(** X8: a tuple whose command cannot be built -- too few fields, or a field
    with too many digits -- stops the sweep where it stands.  With every
    earlier tuple served, the run ends with that tuple's exception and exit
    status 1 in exactly the world the sweep over the earlier tuples leaves:
    their outputs are printed, the offending tuple and all later ones launch
    nothing. *)
Theorem unbuildable_tuple_stops_sweep (good : list (list Z)) (bad : list Z)
    (rest : list (list Z)) (e : exn) (h : os) :
  Forall passable good ->
  cmd bad = Raise e ->
  program_runs spawn ->
  python (sweep spawn (good ++ bad :: rest)) h
    = (Raise e, snd (python (sweep spawn good) h)) /\
  exit_status (fst (python (sweep spawn (good ++ bad :: rest)) h)) = 1%Z /\
  List.length (launches (trace (snd (python (sweep spawn (good ++ bad :: rest)) h))))
    = List.length good.
Proof.
  intros Hgood Hbad Hrun.
  assert (E : python (sweep spawn (good ++ bad :: rest)) h
              = (Raise e, snd (python (sweep spawn good) h))).
  { unfold python. apply sweep_cmd_raise; assumption. }
  rewrite E. cbn [fst snd exit_status]. repeat split.
  destruct (run_complete spawn good h Hgood Hrun) as (cps & _ & Hcmd & Htr & _).
  rewrite Htr, launches_iterations, length_map.
  symmetry. exact (Forall2_length Hcmd).
Qed.

(** X9: where the program can never be started, the run of any grid that
    begins with a tuple whose command can be built ends at that first tuple:
    one launch asked for and refused, nothing printed, [OSError] and exit
    status 1. *)
Theorem missing_program_stops_at_first_tuple (t : list Z)
    (rest : list (list Z)) (h : os) :
  passable t ->
  (forall c h', fst (spawn c h') = None) ->
  let r := python (sweep spawn (t :: rest)) h in
  fst r = Raise OSError /\
  exit_status (fst r) = 1%Z /\
  trace (snd r) = [Launch (go_run ++ map str (firstn 7 t)); LaunchError] /\
  sys_stdout (snd r) = "".
Proof.
  intros Ht Hnone. cbv zeta. unfold python. rewrite sweep_cons.
  set (w := {| host := h; sys_stdout := ""; trace := [] |}).
  set (c := go_run ++ map str (firstn 7 t)).
  destruct (spawn c (host w)) as [o h'] eqn:Hs.
  pose proof (Hnone c (host w)) as Ho. rewrite Hs in Ho. simpl in Ho. subst o.
  rewrite (body_refused spawn t c w h' (cmd_passable t Ht) Hs).
  repeat split.
Qed.

(** X12: a child that exits after writing, on either stream, bytes that do not
    decode stops the sweep at its tuple: [subprocess.run] raises
    [UnicodeDecodeError] once the child has terminated, nothing is printed for
    it -- even if its standard output alone would decode -- and the
    interpreter exits with status 1. *)
Theorem undecodable_output_stops_sweep (t : list Z) (rest : list (list Z))
    (h h' : os) (r : Terminated) :
  passable t ->
  spawn (go_run ++ map str (firstn 7 t)) h = (Some r, h') ->
  out_stream r = Undecodable \/ err_stream r = Undecodable ->
  let res := python (sweep spawn (t :: rest)) h in
  fst res = Raise UnicodeDecodeError /\
  exit_status (fst res) = 1%Z /\
  trace (snd res) = [Launch (go_run ++ map str (firstn 7 t)); DecodeError] /\
  sys_stdout (snd res) = "".
Proof.
  intros Ht Hs Hbad. cbv zeta. unfold python. rewrite sweep_cons.
  assert (Hd : decoded r = None).
  { unfold decoded. destruct Hbad as [-> | ->]; [reflexivity |].
    now destruct (out_stream r). }
  rewrite (body_undecodable spawn t _ {| host := h; sys_stdout := ""; trace := [] |}
             r h' (cmd_passable t Ht) Hs Hd).
  repeat split.
Qed.

Lemma sweep_closed_form (f : list string -> string) (grid : list (list Z)) :
  Forall passable grid ->
  runs_program f spawn ->
  forall w : world os,
    fst (sweep spawn grid w) = Return tt /\
    sys_stdout (snd (sweep spawn grid w))
      = (sys_stdout w
         ++ lines (map (fun t => f (go_run ++ map str (firstn 7 t))%list) grid))%string /\
    launches (trace (snd (sweep spawn grid w)))
      = launches (trace w)
        ++ map (fun t => go_run ++ map str (firstn 7 t)) grid.
Proof.
  intros Hgrid Hf.
  induction Hgrid as [|t rest Ht _ IH]; intros w.
  - simpl. now rewrite append_nil_r, List.app_nil_r.
  - rewrite sweep_cons.
    destruct (Hf (go_run ++ map str (firstn 7 t)) (host w)) as (x & h & Hs & Hx).
    rewrite (body_exited spawn t _ w _ x h (cmd_passable t Ht) Hs
               (decoded_text_exit x)).
    destruct (IH {| host := h;
                    sys_stdout := sys_stdout w ++ out x ++ newline;
                    trace := trace w
                             ++ iteration (completed (go_run ++ map str (firstn 7 t)) x) |})
      as (Hret & Hout & Hl).
    split; [exact Hret | split].
    + rewrite Hout. cbn [sys_stdout map lines]. rewrite Hx.
      now rewrite !append_assoc.
    + rewrite Hl. cbn [trace map]. rewrite launches_app.
      unfold iteration, completed. cbn [cp_args launches flat_map app].
      now rewrite <- List.app_assoc.
Qed.

(** X10: with a simulator whose output decodes and whose standard output is
    the function [f] of its command line, and a grid of tuples whose commands
    can be built, the script's whole output is determined by the grid: for
    each tuple in order, [f] of [go run test1.go] and the [str] of the tuple's
    seven fields, then a newline; and these are the commands launched. *)
Theorem output_closed_form (f : list string -> string)
    (grid : list (list Z)) (h : os) :
  Forall passable grid ->
  runs_program f spawn ->
  let w := snd (python (sweep spawn grid) h) in
  sys_stdout w
    = lines (map (fun t => f (["go"; "run"; "test1.go"] ++ map str (firstn 7 t))) grid) /\
  launches (trace w)
    = map (fun t => ["go"; "run"; "test1.go"] ++ map str (firstn 7 t)) grid.
Proof.
  intros Hgrid Hf. cbv zeta. unfold python.
  destruct (sweep_closed_form f grid Hgrid Hf
              {| host := h; sys_stdout := ""; trace := [] |}) as (_ & Hout & Hl).
  split; [exact Hout | exact Hl].
Qed.

End MoreSweep.

Lemma cmd_huge_second : cmd [huge; 2; 3; 4; 5; 6; 7]%Z = Raise ValueError.
Proof.
  apply cmd_raise. cbn [trailing].
  rewrite (py_str_huge huge); [reflexivity |].
  unfold huge. rewrite Z.abs_eq; [lia | apply Z.pow_nonneg; lia].
Qed.

Lemma one_tuple_passable : Forall passable [[1; 2; 3; 4; 5; 6; 7]]%Z.
Proof.
  apply Forall_cons; [apply passable_check; vm_compute; reflexivity |].
  apply Forall_nil.
Qed.

(** C5, the counterexample, twice over.  On the embedded grid, the first child
    exits with status 2, nothing on its standard output and bytes that are not
    text on its standard error: the sweep stops there, the four remaining
    tuples are never launched and the interpreter exits with status 1.  On a
    grid of three tuples whose second has a field of 4301 digits, with a stub
    that exits with status 1 and empty output, the first child runs and exits
    with status 1, then the sweep stops with [ValueError]: the remaining two
    tuples are never launched and the interpreter exits with status 1. *)
Lemma nonzero_exit_then_sweep_stopped :
  let r := python (runScript crashing_stub) tt in
  let r' := python (sweep failing_stub
                      [[1; 2; 3; 4; 5; 6; 7]; [huge; 2; 3; 4; 5; 6; 7];
                       [1; 2; 3; 4; 5; 6; 7]]%Z) 0%nat in
  (fst (crashing_stub ["go"; "run"; "test1.go"; "5"; "512"; "10000000000"; "5";
                       "10000"; "100000"; "76"] tt)
     = Some {| status := 2; out_stream := Text ""; err_stream := Undecodable |} /\
   List.length args = 5%nat /\
   List.length (launches (trace (snd r))) = 1%nat /\
   fst r = Raise UnicodeDecodeError /\
   exit_status (fst r) = 1%Z) /\
  (map returncode (exits (trace (snd r'))) = [1%Z] /\
   List.length (launches (trace (snd r'))) = 1%nat /\
   fst r' = Raise ValueError /\
   exit_status (fst r') = 1%Z).
Proof.
  cbv zeta. split; [vm_compute; repeat split |].
  assert (E : python (sweep failing_stub
                        ([[1; 2; 3; 4; 5; 6; 7]]%Z
                         ++ [huge; 2; 3; 4; 5; 6; 7]%Z
                         :: [[1; 2; 3; 4; 5; 6; 7]]%Z)) 0%nat
              = (Raise ValueError,
                 snd (python (sweep failing_stub [[1; 2; 3; 4; 5; 6; 7]]%Z) 0%nat))).
  { unfold python.
    apply (sweep_cmd_raise failing_stub _ _ _ _
             one_tuple_passable cmd_huge_second failing_stub_runs). }
  cbn [app] in E. rewrite E. cbn [fst snd exit_status].
  repeat split.
Qed.

Lemma small_tuples_passable :
  Forall passable [[1; 2; 3; 4; 5; 6; 7]; [8; 9; 10; 11; 12; 13; 14]]%Z.
Proof.
  repeat (apply Forall_cons; [apply passable_check; vm_compute; reflexivity |]).
  apply Forall_nil.
Qed.

Lemma unbuildable_tuple_stops_sweep_witness :
  Forall passable [[1; 2; 3; 4; 5; 6; 7]; [8; 9; 10; 11; 12; 13; 14]]%Z /\
  cmd [huge] = Raise ValueError /\
  program_runs echo_stub /\
  fst (python (sweep echo_stub
                 ([[1; 2; 3; 4; 5; 6; 7]; [8; 9; 10; 11; 12; 13; 14]]%Z
                  ++ [huge] :: args)) tt)
    = Raise ValueError.
Proof.
  split; [exact small_tuples_passable |].
  split; [exact cmd_huge_first | split; [exact echo_stub_runs |]].
  exact (f_equal fst
           (proj1 (unbuildable_tuple_stops_sweep echo_stub _ _ args _ tt
                     small_tuples_passable cmd_huge_first echo_stub_runs))).
Defined.

Lemma first_tuple_passable :
  passable [5; 512; 10000000000; 5; 10000; 100000; 76]%Z.
Proof. apply passable_check; vm_compute; reflexivity. Qed.

Lemma missing_program_stops_at_first_tuple_witness :
  let r := python (sweep no_program args) tt in
  fst r = Raise OSError /\
  exit_status (fst r) = 1%Z /\
  trace (snd r)
    = [Launch ["go"; "run"; "test1.go"; "5"; "512"; "10000000000"; "5";
               "10000"; "100000"; "76"];
       LaunchError] /\
  sys_stdout (snd r) = "".
Proof.
  apply (missing_program_stops_at_first_tuple no_program
           [5; 512; 10000000000; 5; 10000; 100000; 76]%Z (tl args) tt).
  - exact first_tuple_passable.
  - reflexivity.
Defined.

Lemma undecodable_output_stops_sweep_witness :
  let res := python (sweep noisy_echo_stub args) tt in
  fst res = Raise UnicodeDecodeError /\
  exit_status (fst res) = 1%Z /\
  trace (snd res)
    = [Launch ["go"; "run"; "test1.go"; "5"; "512"; "10000000000"; "5";
               "10000"; "100000"; "76"];
       DecodeError] /\
  sys_stdout (snd res) = "".
Proof.
  apply (undecodable_output_stops_sweep noisy_echo_stub
           [5; 512; 10000000000; 5; 10000; 100000; 76]%Z (tl args) tt tt
           {| status := 0;
              out_stream := Text (echo ["go"; "run"; "test1.go"; "5"; "512";
                                        "10000000000"; "5"; "10000"; "100000"; "76"]);
              err_stream := Undecodable |}).
  - exact first_tuple_passable.
  - reflexivity.
  - right. reflexivity.
Defined.

Lemma output_closed_form_witness :
  Forall passable args /\
  runs_program echo moody_stub /\
  let w := snd (python (sweep moody_stub args) 3%nat) in
  sys_stdout w
    = lines (map (fun t => echo (["go"; "run"; "test1.go"] ++ map str (firstn 7 t))) args) /\
  launches (trace w)
    = map (fun t => ["go"; "run"; "test1.go"] ++ map str (firstn 7 t)) args.
Proof.
  split; [exact args_passable | split; [exact moody_stub_echoes |]].
  exact (output_closed_form moody_stub echo args 3%nat
           args_passable moody_stub_echoes).
Defined.

Lemma map_str_inj (l1 l2 : list Z) : map str l1 = map str l2 -> l1 = l2.
Proof.
  revert l2. induction l1 as [|a l1 IH]; intros [|b l2] H; try discriminate H.
  - reflexivity.
  - simpl in H. injection H as Hab Hl.
    f_equal; [exact (str_inj a b Hab) | exact (IH l2 Hl)].
Qed.

(** X11: two tuples are given the same command line only when they agree on
    their first seven fields: distinct parameter settings are never confused
    on the command line. *)
Theorem cmd_injective (t1 t2 : list Z) (c : list string) :
  cmd t1 = Return c ->
  cmd t2 = Return c ->
  firstn 7 t1 = firstn 7 t2.
Proof.
  intros H1 H2.
  destruct (cmd_built t1 c H1) as [_ E1].
  destruct (cmd_built t2 c H2) as [_ E2].
  rewrite E1 in E2. apply app_inv_head in E2. exact (map_str_inj _ _ E2).
Qed.

Lemma cmd_injective_witness :
  firstn 7 [5; 512; 10000000000; 5; 10000; 100000; 76; 1]%Z
    = firstn 7 [5; 512; 10000000000; 5; 10000; 100000; 76; 2]%Z.
Proof.
  exact (cmd_injective
           [5; 512; 10000000000; 5; 10000; 100000; 76; 1]%Z
           [5; 512; 10000000000; 5; 10000; 100000; 76; 2]%Z
           ["go"; "run"; "test1.go"; "5"; "512"; "10000000000"; "5";
            "10000"; "100000"; "76"]
           eq_refl eq_refl).
Defined.
